(** * Miller-Rabin primality test (millerRabin.js): a shallow embedding

    BigInt values are integers [Z]; the bit operations of the source are
    [Z.land], [Z.lor], [Z.shiftl] and [Z.shiftr], its remainder [%] is the
    truncating [Z.rem].  The accuracy parameter [k] is an integer-valued
    number, also a [Z].  The platform's random-byte source is an explicit
    tape of bytes threaded through the functions that draw from it. *)

From Stdlib Require Import ZArith List String Bool Lia.
From Stdlib Require Import Strings.Byte.
From Stdlib Require Zmod.ZmodInv.
Import ListNotations.

Local Open Scope Z_scope.

(** ** BigInt primitives *)

Module BigInt.

(** Binary digits of a positive number, most significant first. *)
Fixpoint digits2 (p : positive) : string :=
  match p with
  | xH => "1"
  | xO q => digits2 q ++ "0"
  | xI q => digits2 q ++ "1"
  end%string.

(** [z.toString(2)]: a negative number carries a leading minus sign. *)
Definition toString2 (z : Z) : string :=
  match z with
  | Z0 => "0"
  | Zpos p => digits2 p
  | Zneg p => "-" ++ digits2 p
  end%string.

End BigInt.

(** Modelled from the spec: [modPow] is imported from another repository and
    is not part of the sources; the spec gives it as
    [modPow(base, exponent, modulus)] computing [base^exponent mod modulus]
    for non-negative arbitrary-precision integers. *)
Definition modPow (base exponent modulus : Z) : Z :=
  (base ^ exponent) mod modulus.

(** ** The entropy source and the outcome of a call *)

(** The bytes [crypto.getRandomValues] will deliver, in order. *)
Definition entropy := list byte.

(** The spec's error taxonomy. *)
Inductive error : Type :=
| InvalidArgument
| EntropyUnavailable.

(** A call returns a value and leaves the rest of the tape, throws, or is
    still looping when the iteration budget is spent. *)
Inductive outcome (A : Type) : Type :=
| Ok (a : A) (rest : entropy)
| Throw (e : error)
| OutOfFuel.

Arguments Ok {A} a rest.
Arguments Throw {A} e.
Arguments OutOfFuel {A}.

Definition M (A : Type) : Type := entropy -> outcome A.

Definition ret {A : Type} (a : A) : M A := fun src => Ok a src.

Definition bind {A B : Type} (c : M A) (f : A -> M B) : M B :=
  fun src =>
    match c src with
    | Ok a rest => f a rest
    | Throw e => Throw e
    | OutOfFuel => OutOfFuel
    end.

Definition diverge {A : Type} : M A := fun _ => OutOfFuel.

Notation "x <- c ;; k" := (bind c (fun x => k))
  (at level 61, c at next level, right associativity).

(** [crypto.getRandomValues(new Uint8Array(len))]: the next [len] bytes of the
    tape; a tape that cannot supply them is the failing source. *)
Definition getRandomValues (len : nat) : M (list byte) :=
  fun src =>
    if (List.length src <? len)%nat then Throw EntropyUnavailable
    else Ok (firstn len src) (skipn len src).

(** ** randomBigIntInRange *)

(** [for (const byte of randomBytes) result = (result << 8n) | BigInt(byte)] *)
Definition packBytes (randomBytes : list byte) : Z :=
  fold_left (fun result b => Z.lor (Z.shiftl result 8) (Z.of_N (Byte.to_N b)))
            randomBytes 0.

Definition rangeOf (min max : Z) : Z := max - min + 1.

Definition bitsNeededOf (range : Z) : nat :=
  String.length (BigInt.toString2 range).

(** [Math.ceil(bitsNeeded / 8)] *)
Definition bytesNeededOf (bitsNeeded : nat) : nat :=
  ((bitsNeeded + 7) / 8)%nat.

Definition maskOf (bitsNeeded : nat) : Z :=
  Z.shiftl 1 (Z.of_nat bitsNeeded) - 1.

(** One draw of the [do ... while] body: fresh bytes, packed and masked. *)
Definition drawSample (bytesNeeded : nat) (mask : Z) : M Z :=
  randomBytes <- getRandomValues bytesNeeded ;;
  ret (Z.land (packBytes randomBytes) mask).

(** [do { ... } while (result >= range)]; [fuel] bounds the number of draws. *)
Fixpoint rejectionLoop (fuel : nat) (range mask : Z) (bytesNeeded : nat)
  : M Z :=
  match fuel with
  | O => diverge
  | S fuel' =>
      result <- drawSample bytesNeeded mask ;;
      if range <=? result
      then rejectionLoop fuel' range mask bytesNeeded
      else ret result
  end.

Definition randomBigIntInRange (fuel : nat) (min max : Z) : M Z :=
  let range := rangeOf min max in
  let bitsNeeded := bitsNeededOf range in
  let bytesNeeded := bytesNeededOf bitsNeeded in
  let mask := maskOf bitsNeeded in
  result <- rejectionLoop fuel range mask bytesNeeded ;;
  ret (min + result).

(** ** Witness selection *)

Definition getDeterministicWitnesses (n : Z) : option (list Z) :=
  if n <? 2047 then Some [2]
  else if n <? 1373653 then Some [2; 3]
  else if n <? 9080191 then Some [31; 73]
  else if n <? 25326001 then Some [2; 3; 5]
  else if n <? 3215031751 then Some [2; 3; 5; 7]
  else if n <? 4759123141 then Some [2; 7; 61]
  else if n <? 1122004669633 then Some [2; 13; 23; 1662803]
  else if n <? 3474749660383 then Some [2; 3; 5; 7; 11; 13]
  else if n <? 341550071728321 then Some [2; 3; 5; 7; 11; 13; 17]
  else None.

(** [for (let i = 0; i < k; i++) witnesses.push(randomBigIntInRange(2n, n - 2n))]
    with [todo] the iterations still to run. *)
Fixpoint pushWitnesses (fuel : nat) (todo : nat) (n : Z) (witnesses : list Z)
  : M (list Z) :=
  match todo with
  | O => ret witnesses
  | S todo' =>
      a <- randomBigIntInRange fuel 2 (n - 2) ;;
      pushWitnesses fuel todo' n (witnesses ++ [a])
  end.

Definition generateRandomWitnesses (fuel : nat) (n k : Z) : M (list Z) :=
  pushWitnesses fuel (Z.to_nat k) n [].

(** [getDeterministicWitnesses(n) || generateRandomWitnesses(n, k)]: an array
    is truthy, [null] is not. *)
Definition selectWitnesses (fuel : nat) (n k : Z) : M (list Z) :=
  match getDeterministicWitnesses n with
  | Some witnesses => ret witnesses
  | None => generateRandomWitnesses fuel n k
  end.

(** ** checkWitness *)

(** [for (let j = 0n; j < s - 1n; j++) { x = (x * x) % n; if (x === n - 1n) return true; }]
    followed by [return false]; [iters] is the number of iterations left. *)
Fixpoint squaringLoop (iters : nat) (x n : Z) : bool :=
  match iters with
  | O => false
  | S iters' =>
      let x' := Z.rem (x * x) n in
      if x' =? n - 1 then true else squaringLoop iters' x' n
  end.

Definition checkWitness (a d n s : Z) : bool :=
  let x := modPow a d n in
  if (x =? 1) || (x =? n - 1) then true
  else squaringLoop (Z.to_nat (s - 1)) x n.

(** ** millerRabin *)

(** [while ((d & 1n) === 0n) { d >>= 1n; s += 1n; }] *)
Fixpoint halvingLoop (fuel : nat) (s d : Z) : option (Z * Z) :=
  if Z.land d 1 =? 0 then
    match fuel with
    | O => None
    | S fuel' => halvingLoop fuel' (s + 1) (Z.shiftr d 1)
    end
  else Some (s, d).

(** The decomposition of [n - 1]: [let s = 0n; let d = n - 1n;] and the loop. *)
Definition decompose (fuel : nat) (n : Z) : option (Z * Z) :=
  halvingLoop fuel 0 (n - 1).

(** [for (const a of witnesses) if (!checkWitness(a, d, n, s)) return false;]
    followed by [return true]. *)
Fixpoint testWitnesses (witnesses : list Z) (d n s : Z) : bool :=
  match witnesses with
  | [] => true
  | a :: rest =>
      if negb (checkWitness a d n s) then false
      else testWitnesses rest d n s
  end.

Definition millerRabin (fuel : nat) (n k : Z) : M bool :=
  if n <? 2 then ret false
  else if (n =? 2) || (n =? 3) then ret true
  else if Z.land n 1 =? 0 then ret false
  else
    match decompose fuel n with
    | None => diverge
    | Some (s, d) =>
        witnesses <- selectWitnesses fuel n k ;;
        ret (testWitnesses witnesses d n s)
    end.

(** [millerRabin(n)] with the default [k = 20]. *)
Definition millerRabinDefault (fuel : nat) (n : Z) : M bool :=
  millerRabin fuel n 20.

(** ** The deterministic table as the spec prints it *)

(** The spec's table of (exclusive threshold, witnesses in test order). *)
Definition publishedTable : list (Z * list Z) :=
  [ (2047, [2]);
    (1373653, [2; 3]);
    (9080191, [31; 73]);
    (25326001, [2; 3; 5]);
    (3215031751, [2; 3; 5; 7]);
    (4759123141, [2; 7; 61]);
    (1122004669633, [2; 13; 23; 1662803]);
    (3474749660383, [2; 3; 5; 7; 11; 13]);
    (341550071728321, [2; 3; 5; 7; 11; 13; 17]) ].

(** The spec's policy: the witnesses of the first row whose threshold
    exceeds [n], if there is one. *)
Definition firstRowAbove (table : list (Z * list Z)) (n : Z)
  : option (list Z) :=
  option_map snd (find (fun row => n <? fst row) table).

Definition lastThreshold : Z := 341550071728321.

(** ** Reference notions the properties are stated with *)

(** [x] after [r] rounds of [x = (x * x) % n]. *)
Definition squaredTimes (r : nat) (x n : Z) : Z :=
  Nat.iter r (fun y => Z.rem (y * y) n) x.

(** The reference primality oracle the spec names, trial division by
    [c = 2, 3, ...] for as long as [c * c <= n]. *)
Fixpoint noDivisorFrom (count : nat) (c n : Z) : bool :=
  match count with
  | O => true
  | S count' =>
      if n <? c * c then true
      else negb (n mod c =? 0) && noDivisorFrom count' (c + 1) n
  end.

Definition trialDivision (n : Z) : bool :=
  (1 <? n) && noDivisorFrom (Z.to_nat (n - 2)) 2 n.

(** The verdict of a call, when it returned one. *)
Definition verdict (o : outcome bool) : option bool :=
  match o with
  | Ok b _ => Some b
  | _ => None
  end.

(** The byte of value [x mod 256]. *)
Definition byteOfZ (x : Z) : byte :=
  match Byte.of_N (Z.to_N (x mod 256)) with
  | Some b => b
  | None => x00
  end.

(** The [len] bytes, most significant first, that the source must deliver
    for the packing loop to yield [x]. *)
Fixpoint bigEndian (len : nat) (x : Z) : list byte :=
  match len with
  | O => []
  | S len' => bigEndian len' (x / 256) ++ [byteOfZ x]
  end.

(** [o'] keeps the outcome [o] unless [o] is an exhausted budget. *)
Definition keeps {A : Type} (o o' : outcome A) : Prop :=
  o <> OutOfFuel -> o' = o.

(** * Properties *)

(** ** Bits and arithmetic *)

Section BitFacts.

Lemma land_1_mod2 (d : Z) : Z.land d 1 = d mod 2.
Proof. change 1 with (Z.ones 1). now rewrite Z.land_ones by lia. Qed.

Lemma shiftr_1_div2 (d : Z) : Z.shiftr d 1 = d / 2.
Proof. now rewrite Z.shiftr_div_pow2 by lia. Qed.

Lemma low_bit_zero_even (d : Z) :
  Z.land d 1 = 0 -> d = 2 * Z.shiftr d 1.
Proof.
  rewrite land_1_mod2, shiftr_1_div2. intros H.
  pose proof (Z.div_mod d 2). lia.
Qed.

Lemma low_bit_odd (n : Z) : (Z.land n 1 =? 0) = negb (Z.odd n).
Proof.
  rewrite land_1_mod2, Zmod_odd. now destruct (Z.odd n).
Qed.

Lemma maskOf_pow2 (bits : nat) : maskOf bits = 2 ^ Z.of_nat bits - 1.
Proof. unfold maskOf. now rewrite Z.shiftl_1_l. Qed.

Lemma maskOf_nonneg (bits : nat) : 0 <= maskOf bits.
Proof.
  rewrite maskOf_pow2.
  assert (0 < 2 ^ Z.of_nat bits) by (apply Z.pow_pos_nonneg; lia). lia.
Qed.

End BitFacts.

(** ** The binary rendering and the bit length *)

Section BitLength.

Lemma length_append (s1 s2 : string) :
  String.length (s1 ++ s2) = (String.length s1 + String.length s2)%nat.
Proof. induction s1 as [|c s1 IH]; simpl; [reflexivity | now rewrite IH]. Qed.

Lemma digits2_length (p : positive) :
  String.length (BigInt.digits2 p) = Pos.size_nat p.
Proof.
  induction p as [q IH | q IH |]; simpl; trivial;
    rewrite length_append, IH; simpl; lia.
Qed.

Lemma pow2_size_bounds (p : positive) :
  2 ^ Z.of_nat (Pos.size_nat p) <= 2 * Z.pos p
  /\ Z.pos p < 2 ^ Z.of_nat (Pos.size_nat p).
Proof.
  induction p as [q [IH1 IH2] | q [IH1 IH2] |]; cbn [Pos.size_nat].
  - rewrite Nat2Z.inj_succ, Z.pow_succ_r by lia. lia.
  - rewrite Nat2Z.inj_succ, Z.pow_succ_r by lia. lia.
  - simpl. lia.
Qed.

Lemma bitsNeededOf_pos (range : Z) :
  0 < range ->
  2 ^ Z.of_nat (bitsNeededOf range) <= 2 * range
  /\ range < 2 ^ Z.of_nat (bitsNeededOf range).
Proof.
  destruct range as [|p|p]; try lia. intros _.
  unfold bitsNeededOf. cbn [BigInt.toString2].
  rewrite digits2_length. apply pow2_size_bounds.
Qed.

End BitLength.

(** ** The halving loop *)

Section Decomposition.

Lemma halvingLoop_invariant (fuel : nat) :
  forall s d s' d',
    halvingLoop fuel s d = Some (s', d') ->
    s <= s' /\ d = 2 ^ (s' - s) * d' /\ Z.land d' 1 <> 0.
Proof.
  induction fuel as [|fuel IH]; intros s d s' d'; cbn [halvingLoop];
    destruct (Z.land d 1 =? 0) eqn:E; try discriminate.
  - intros [= <- <-]. rewrite Z.sub_diag. apply Z.eqb_neq in E. simpl.
    repeat split; try lia. now destruct d.
  - intros H. apply IH in H. destruct H as (Hs & Hd & Hodd).
    apply Z.eqb_eq, low_bit_zero_even in E.
    repeat split; try lia; trivial.
    replace (s' - s) with (Z.succ (s' - (s + 1))) by lia.
    rewrite Z.pow_succ_r by lia. lia.
  - intros [= <- <-]. rewrite Z.sub_diag. apply Z.eqb_neq in E. simpl.
    repeat split; try lia. now destruct d.
Qed.

Lemma halvingLoop_terminates (fuel : nat) :
  forall s d, 0 < d < 2 ^ Z.of_nat fuel ->
    exists r, halvingLoop fuel s d = Some r.
Proof.
  induction fuel as [|fuel IH]; intros s d Hd; cbn [halvingLoop];
    destruct (Z.land d 1 =? 0) eqn:E; eauto.
  - simpl in Hd. lia.
  - apply IH. apply Z.eqb_eq in E.
    pose proof (low_bit_zero_even d E) as Hev.
    rewrite Nat2Z.inj_succ, Z.pow_succ_r in Hd by lia. lia.
Qed.

Lemma decompose_some (fuel : nat) (n : Z) :
  2 <= n -> n <= 2 ^ Z.of_nat fuel ->
  exists s d, decompose fuel n = Some (s, d).
Proof.
  intros Hn Hf. destruct (halvingLoop_terminates fuel 0 (n - 1)) as [[s d] H];
    [lia | now exists s, d].
Qed.

(** What the loop leaves behind on an odd [n] above 1. *)
Lemma decompose_odd (fuel : nat) (n s d : Z) :
  Z.odd n = true -> 1 < n -> decompose fuel n = Some (s, d) ->
  2 ^ s * d = n - 1 /\ d mod 2 = 1 /\ 1 <= s.
Proof.
  intros Hodd Hn Hsd.
  apply halvingLoop_invariant in Hsd. destruct Hsd as (Hs & Hd & Hlow).
  rewrite Z.sub_0_r in Hd. rewrite land_1_mod2 in Hlow.
  assert (Hd2 : d mod 2 = 1) by (pose proof (Z.mod_pos_bound d 2); lia).
  repeat split; try lia.
  destruct (Z.eq_dec s 0) as [->|]; [|lia].
  rewrite Z.pow_0_r, Z.mul_1_l in Hd.
  rewrite Zmod_odd in Hd2. rewrite <- Hd in Hd2.
  replace (n - 1) with (Z.pred n) in Hd2 by lia.
  rewrite Z.odd_pred, <- Z.negb_odd, Hodd in Hd2. discriminate.
Qed.

End Decomposition.

(** ** Edge cases of millerRabin *)

(** C2: millerRabin answers false for every n < 2, true for 2 and for 3, and
    false for every even n > 2; it does so with any iteration budget, zero
    included, and leaves the entropy tape as it found it, so neither the
    halving loop nor any witness test has run. *)
Theorem millerRabin_edge_cases (fuel : nat) (k : Z) (src : entropy) :
  (forall n, n < 2 -> millerRabin fuel n k src = Ok false src)
  /\ millerRabin fuel 2 k src = Ok true src
  /\ millerRabin fuel 3 k src = Ok true src
  /\ (forall n, 2 < n -> Z.even n = true ->
        millerRabin fuel n k src = Ok false src).
Proof.
  repeat split; try reflexivity.
  - intros n Hn. unfold millerRabin.
    now replace (n <? 2) with true by (symmetry; apply Z.ltb_lt; lia).
  - intros n Hn He. unfold millerRabin.
    replace (n <? 2) with false by (symmetry; apply Z.ltb_ge; lia).
    replace (n =? 2) with false by (symmetry; apply Z.eqb_neq; lia).
    assert (n <> 3) by (intros ->; discriminate He).
    replace (n =? 3) with false by (symmetry; apply Z.eqb_neq; lia).
    rewrite low_bit_odd, <- Z.negb_even, He. reflexivity.
Qed.

Lemma millerRabin_edge_cases_witness :
  millerRabin 0 (-7) 20 [] = Ok false []
  /\ millerRabin 0 100 20 [] = Ok false [].
Proof.
  destruct (millerRabin_edge_cases 0 20 []) as (Hlow & _ & _ & Heven).
  split; [apply Hlow; lia | apply Heven; [lia | reflexivity]].
Defined.

(** ** The witness table *)

Lemma getDeterministicWitnesses_none (n : Z) :
  getDeterministicWitnesses n = None <-> lastThreshold <= n.
Proof.
  unfold getDeterministicWitnesses, lastThreshold.
  repeat match goal with
         | |- context [?a <? ?b] => destruct (Z.ltb_spec a b)
         end; split; intros Hn; try discriminate; try lia; reflexivity.
Qed.


(** C4: getDeterministicWitnesses returns, for every n, the witnesses of the
    first row of the published table whose (exclusive) threshold exceeds n,
    and null exactly when n is at or above the last threshold
    341550071728321. *)
Theorem getDeterministicWitnesses_published :
  (forall n, getDeterministicWitnesses n = firstRowAbove publishedTable n)
  /\ (forall n, getDeterministicWitnesses n = None <-> lastThreshold <= n).
Proof.
  split; intros n.
  - unfold getDeterministicWitnesses, firstRowAbove, publishedTable.
    cbn [find fst snd].
    repeat (match goal with |- context [?a <? ?b] => destruct (a <? b) end;
            [reflexivity|]).
    reflexivity.
  - apply getDeterministicWitnesses_none.
Qed.

(** ** The decomposition of n - 1 *)

(** C5: for every odd n >= 5 the halving loop of millerRabin, given a budget
    of at least log2 n iterations, stops with (s, d) such that
    2^s * d = n - 1, d is odd and s >= 1. *)
Theorem decompose_correct (fuel : nat) (n : Z) :
  Z.odd n = true -> 5 <= n -> n <= 2 ^ Z.of_nat fuel ->
  exists s d,
    decompose fuel n = Some (s, d)
    /\ 2 ^ s * d = n - 1 /\ d mod 2 = 1 /\ 1 <= s.
Proof.
  intros Hodd Hn Hfuel.
  destruct (decompose_some fuel n) as (s & d & Hsd); try lia.
  exists s, d. split; [exact Hsd|].
  apply decompose_odd in Hsd; trivial; lia.
Qed.

Lemma decompose_correct_witness :
  exists s d,
    decompose 10 561 = Some (s, d)
    /\ 2 ^ s * d = 561 - 1 /\ d mod 2 = 1 /\ 1 <= s.
Proof.
  apply (decompose_correct 10 561); [reflexivity | lia | vm_compute; discriminate].
Defined.

(** ** The rejection test accepts at least half of the samples *)

(** C8: with range = max - min + 1 and bitsNeeded the length of range's
    binary rendering, 2 * range >= 2^bitsNeeded whenever min <= max: the
    accepted region [0, range) is at least half of the masked sample space
    [0, mask] = [0, 2^bitsNeeded). *)
Theorem rejection_accepts_half (min max : Z) :
  min <= max ->
  let range := rangeOf min max in
  let bitsNeeded := bitsNeededOf range in
  2 * range >= 2 ^ Z.of_nat bitsNeeded
  /\ maskOf bitsNeeded + 1 = 2 ^ Z.of_nat bitsNeeded.
Proof.
  intros Hle range bitsNeeded.
  destruct (bitsNeededOf_pos range) as [H _]; [unfold range, rangeOf; lia|].
  rewrite maskOf_pow2. fold bitsNeeded in H. lia.
Qed.

Lemma rejection_accepts_half_witness :
  2 * rangeOf 2 6 >= 2 ^ Z.of_nat (bitsNeededOf (rangeOf 2 6))
  /\ maskOf (bitsNeededOf (rangeOf 2 6)) + 1
     = 2 ^ Z.of_nat (bitsNeededOf (rangeOf 2 6)).
Proof.
  apply (rejection_accepts_half 2 6). lia.
Defined.

(** ** Outcomes of sequenced calls *)

Section Outcomes.

Context {A B : Type}.

Lemma bind_Ok (c : M A) (f : A -> M B) (src : entropy) (b : B)
      (rest : entropy) :
  bind c f src = Ok b rest ->
  exists a mid, c src = Ok a mid /\ f a mid = Ok b rest.
Proof.
  unfold bind. destruct (c src) as [a mid| |]; try discriminate. eauto.
Qed.

Lemma bind_Throw (c : M A) (f : A -> M B) (src : entropy) (e : error) :
  bind c f src = Throw e ->
  c src = Throw e \/ exists a mid, c src = Ok a mid /\ f a mid = Throw e.
Proof.
  unfold bind. destruct (c src) as [a mid|e'|]; intros H;
    [right; eauto | left; now injection H as -> | discriminate].
Qed.

End Outcomes.

(** ** Rejection sampling *)

Section Sampling.

Lemma packBytes_nonneg (randomBytes : list byte) : 0 <= packBytes randomBytes.
Proof.
  unfold packBytes.
  enough (H : forall acc, 0 <= acc ->
            0 <= fold_left
                   (fun result b =>
                      Z.lor (Z.shiftl result 8) (Z.of_N (Byte.to_N b)))
                   randomBytes acc) by (apply H; lia).
  induction randomBytes as [|b bs IH]; intros acc Hacc; cbn [fold_left];
    [exact Hacc|].
  apply IH, Z.lor_nonneg. split; [now apply Z.shiftl_nonneg | lia].
Qed.

Lemma maskOf_ones (bits : nat) : maskOf bits = Z.ones (Z.of_nat bits).
Proof. unfold maskOf, Z.ones. lia. Qed.

Lemma drawSample_nonneg (bytesNeeded : nat) (mask : Z) (src : entropy)
      (v : Z) (rest : entropy) :
  0 <= mask -> drawSample bytesNeeded mask src = Ok v rest -> 0 <= v.
Proof.
  intros Hmask H. unfold drawSample in H.
  apply bind_Ok in H. destruct H as (bytes & mid & _ & H).
  injection H as <- _. apply Z.land_nonneg. now right.
Qed.

(** Masking keeps the low [bits] bits of the packed bytes. *)
Lemma drawSample_masked (bytesNeeded bits : nat) (src : entropy)
      (v : Z) (rest : entropy) :
  drawSample bytesNeeded (maskOf bits) src = Ok v rest ->
  0 <= v <= maskOf bits.
Proof.
  intros H. unfold drawSample in H.
  apply bind_Ok in H. destruct H as (bytes & mid & _ & H).
  injection H as <- _.
  rewrite maskOf_ones, Z.land_ones by lia. unfold Z.ones.
  rewrite Z.shiftl_1_l.
  assert (0 < 2 ^ Z.of_nat bits) by (apply Z.pow_pos_nonneg; lia).
  pose proof (Z.mod_pos_bound (packBytes bytes) (2 ^ Z.of_nat bits)). lia.
Qed.

Lemma rejectionLoop_accepted (fuel : nat) (range mask : Z) (bytesNeeded : nat) :
  0 <= mask ->
  forall src v rest,
    rejectionLoop fuel range mask bytesNeeded src = Ok v rest ->
    0 <= v < range.
Proof.
  intros Hmask. induction fuel as [|fuel IH]; intros src v rest H;
    cbn [rejectionLoop] in H; [discriminate|].
  apply bind_Ok in H. destruct H as (result & mid & Hdraw & H).
  destruct (Z.leb_spec range result) as [Hge|Hlt].
  - now apply IH in H.
  - injection H as <- _.
    apply drawSample_nonneg in Hdraw; trivial. lia.
Qed.

(** A draw below [range] ends the loop at once. *)
Lemma rejectionLoop_accepts (fuel : nat) (range mask : Z) (bytesNeeded : nat)
      (src : entropy) (v : Z) (rest : entropy) :
  drawSample bytesNeeded mask src = Ok v rest -> v < range ->
  rejectionLoop (S fuel) range mask bytesNeeded src = Ok v rest.
Proof.
  intros Hdraw Hlt. cbn [rejectionLoop]. unfold bind. rewrite Hdraw.
  now replace (range <=? v) with false by (symmetry; apply Z.leb_gt; lia).
Qed.

(** A draw at or above [range] is discarded and the loop draws again. *)
Lemma rejectionLoop_rejects (fuel : nat) (range mask : Z) (bytesNeeded : nat)
      (src : entropy) (v : Z) (rest : entropy) :
  drawSample bytesNeeded mask src = Ok v rest -> range <= v ->
  rejectionLoop (S fuel) range mask bytesNeeded src
  = rejectionLoop fuel range mask bytesNeeded rest.
Proof.
  intros Hdraw Hge. cbn [rejectionLoop]. unfold bind. rewrite Hdraw.
  now replace (range <=? v) with true by (symmetry; apply Z.leb_le; lia).
Qed.

Lemma randomBigIntInRange_bounds (fuel : nat) (min max : Z) (src : entropy)
      (v : Z) (rest : entropy) :
  randomBigIntInRange fuel min max src = Ok v rest ->
  min <= v <= max.
Proof.
  unfold randomBigIntInRange. intros H.
  apply bind_Ok in H. destruct H as (result & mid & Hloop & H).
  injection H as <- _.
  apply rejectionLoop_accepted in Hloop; [|apply maskOf_nonneg].
  unfold rangeOf in Hloop. lia.
Qed.

(** With [min = max] the only accepted sample is 0: one byte is drawn per
    attempt and an even byte is accepted. *)
Lemma randomBigIntInRange_point_returns (fuel : nat) (min : Z) (b : byte)
      (rest : entropy) :
  Z.even (Z.of_N (Byte.to_N b)) = true ->
  randomBigIntInRange (S fuel) min min (b :: rest) = Ok min rest.
Proof.
  intros Hb. unfold randomBigIntInRange, rangeOf.
  replace (min - min + 1) with 1 by lia.
  change (bitsNeededOf 1) with 1%nat. change (bytesNeededOf 1) with 1%nat.
  change (maskOf 1) with 1.
  unfold bind.
  rewrite (rejectionLoop_accepts fuel 1 1 1 (b :: rest) 0 rest); try lia.
  - unfold ret. f_equal. lia.
  - unfold drawSample, bind, getRandomValues, ret. cbn.
    f_equal. rewrite land_1_mod2, Zmod_even, Hb. reflexivity.
Qed.

End Sampling.

(** C6: for min <= max, a value returned by randomBigIntInRange(min, max)
    lies in the closed interval [min, max]; randomBigIntInRange(min, min)
    returns nothing but min, and does return it as soon as the source
    delivers an even byte. *)
Theorem randomBigIntInRange_closed_interval :
  (forall fuel min max src v rest,
      min <= max ->
      randomBigIntInRange fuel min max src = Ok v rest ->
      min <= v <= max)
  /\ (forall fuel min src v rest,
         randomBigIntInRange fuel min min src = Ok v rest -> v = min)
  /\ (forall fuel min b rest,
         Z.even (Z.of_N (Byte.to_N b)) = true ->
         randomBigIntInRange (S fuel) min min (b :: rest) = Ok min rest).
Proof.
  split; [|split].
  - intros fuel min max src v rest _ H.
    now apply randomBigIntInRange_bounds in H.
  - intros fuel min src v rest H.
    apply randomBigIntInRange_bounds in H. lia.
  - intros fuel min b rest Hb. now apply randomBigIntInRange_point_returns.
Qed.

Lemma randomBigIntInRange_closed_interval_witness :
  2 <= 5 <= 6
  /\ randomBigIntInRange 1 9 9 [x0a] = Ok 9 [].
Proof.
  destruct randomBigIntInRange_closed_interval as (Hin & _ & Hret).
  split.
  - apply (Hin 3%nat 2 6 [xff; x0b] 5 []); [lia | vm_compute; reflexivity].
  - apply (Hret 0%nat 9 x0a []). reflexivity.
Defined.

(** ** Witness ranges *)

Section WitnessRange.

Lemma getDeterministicWitnesses_range (n : Z) (witnesses : list Z) :
  5 <= n -> getDeterministicWitnesses n = Some witnesses ->
  Forall (fun a => 2 <= a <= n - 2) witnesses.
Proof.
  intros Hn. unfold getDeterministicWitnesses.
  repeat match goal with
         | |- context [?a <? ?b] => destruct (Z.ltb_spec a b)
         end; intros [= <-]; repeat constructor; lia.
Qed.

Lemma pushWitnesses_range (fuel : nat) (n : Z) :
  4 <= n ->
  forall todo witnesses src result rest,
    Forall (fun a => 2 <= a <= n - 2) witnesses ->
    pushWitnesses fuel todo n witnesses src = Ok result rest ->
    Forall (fun a => 2 <= a <= n - 2) result.
Proof.
  intros Hn. induction todo as [|todo IH]; intros witnesses src result rest Hw H;
    cbn [pushWitnesses] in H.
  - now injection H as <- _.
  - apply bind_Ok in H. destruct H as (a & mid & Ha & H).
    apply randomBigIntInRange_bounds in Ha.
    apply IH in H; trivial.
    apply Forall_app. split; [exact Hw | now constructor].
Qed.

Lemma pushWitnesses_length (fuel : nat) (n : Z) :
  forall todo witnesses src result rest,
    pushWitnesses fuel todo n witnesses src = Ok result rest ->
    List.length result = (List.length witnesses + todo)%nat.
Proof.
  induction todo as [|todo IH]; intros witnesses src result rest H;
    cbn [pushWitnesses] in H.
  - injection H as <- _. lia.
  - apply bind_Ok in H. destruct H as (a & mid & _ & H).
    apply IH in H. rewrite H, length_app. simpl. lia.
Qed.

(** [generateRandomWitnesses(n, k)] returns [k] witnesses. *)
Lemma generateRandomWitnesses_length (fuel : nat) (n k : Z) (src : entropy)
      (witnesses : list Z) (rest : entropy) :
  generateRandomWitnesses fuel n k src = Ok witnesses rest ->
  List.length witnesses = Z.to_nat k.
Proof.
  unfold generateRandomWitnesses. intros H.
  now apply pushWitnesses_length in H.
Qed.

End WitnessRange.

(** C9: for every odd n >= 5 and k >= 1, each witness of the sequence that
    millerRabin iterates over, taken from the table or freshly sampled, lies
    in [2, n - 2]. *)
Theorem selectWitnesses_range (fuel : nat) (n k : Z) (src : entropy)
        (witnesses : list Z) (rest : entropy) :
  Z.odd n = true -> 5 <= n -> 1 <= k ->
  selectWitnesses fuel n k src = Ok witnesses rest ->
  Forall (fun a => 2 <= a <= n - 2) witnesses.
Proof.
  intros _ Hn _. unfold selectWitnesses.
  destruct (getDeterministicWitnesses n) as [ws|] eqn:E.
  - intros [= <- _]. now apply getDeterministicWitnesses_range.
  - unfold generateRandomWitnesses. apply pushWitnesses_range; [lia | constructor].
Qed.

Lemma selectWitnesses_range_witness :
  Forall (fun a => 2 <= a <= 341550071728323 - 2)
         [2 + 0x010203040506; 2 + 0x0000000000ff]
  /\ Forall (fun a => 2 <= a <= 561 - 2) [2].
Proof.
  split.
  - apply (selectWitnesses_range 4 341550071728323 2
             [xff; xff; xff; xff; xff; xff; xff;
              x00; x01; x02; x03; x04; x05; x06;
              x00; x00; x00; x00; x00; x00; xff] _ []);
      [reflexivity | lia | lia | vm_compute; reflexivity].
  - apply (selectWitnesses_range 0 561 1 [] _ []);
      [reflexivity | lia | lia | reflexivity].
Defined.

(** ** The witness check *)

Section WitnessCheck.

Lemma squaredTimes_step (r : nat) (x n : Z) :
  squaredTimes (S r) x n = squaredTimes r (Z.rem (x * x) n) n.
Proof.
  unfold squaredTimes.
  exact (Nat.iter_succ_r r Z (fun y => Z.rem (y * y) n) x).
Qed.

Lemma squaringLoop_true (iters : nat) :
  forall x n,
    squaringLoop iters x n = true <->
    exists r, (1 <= r <= iters)%nat /\ squaredTimes r x n = n - 1.
Proof.
  induction iters as [|iters IH]; intros x n; cbn [squaringLoop].
  - split; [discriminate | intros (r & Hr & _); lia].
  - destruct (Z.eqb_spec (Z.rem (x * x) n) (n - 1)) as [Heq|Hne].
    + split; [intros _ | reflexivity].
      exists 1%nat. split; [lia | exact Heq].
    + rewrite IH. split; intros (r & Hr & Hsq).
      * exists (S r). split; [lia | now rewrite squaredTimes_step].
      * destruct r as [|[|r]]; [lia | now elim Hne |].
        exists (S r). split; [lia | now rewrite <- squaredTimes_step].
Qed.

(** On a modulus above 1 the rounds of squaring compute the powers
    [a^(2^r * d) mod n]. *)
Lemma squaredTimes_pow (a d n : Z) (r : nat) :
  0 <= d -> 1 < n ->
  squaredTimes r (modPow a d n) n = (a ^ (2 ^ Z.of_nat r * d)) mod n.
Proof.
  intros Hd Hn. induction r as [|r IH].
  - unfold squaredTimes, modPow. simpl. now destruct d.
  - change (squaredTimes (S r) (modPow a d n) n)
      with (Z.rem (squaredTimes r (modPow a d n) n
                   * squaredTimes r (modPow a d n) n) n).
    rewrite IH, Z.rem_mod_nonneg; try lia.
    + rewrite <- Z.mul_mod, <- Z.pow_add_r by nia || lia.
      f_equal. f_equal. rewrite Nat2Z.inj_succ, Z.pow_succ_r; lia.
    + pose proof (Z.mod_pos_bound (a ^ (2 ^ Z.of_nat r * d)) n). nia.
Qed.

Lemma checkWitness_true_iff (a d n s : Z) :
  checkWitness a d n s = true <->
  modPow a d n = 1 \/ modPow a d n = n - 1 \/
  exists r : nat,
    1 <= Z.of_nat r <= s - 1 /\ squaredTimes r (modPow a d n) n = n - 1.
Proof.
  unfold checkWitness.
  destruct (Z.eqb_spec (modPow a d n) 1) as [H1|H1]; [tauto|].
  destruct (Z.eqb_spec (modPow a d n) (n - 1)) as [H2|H2]; [tauto|].
  cbn [orb]. rewrite squaringLoop_true.
  split.
  - intros (r & Hr & Hsq). right; right. exists r. split; [lia | exact Hsq].
  - intros [?|[?|(r & Hr & Hsq)]]; try contradiction.
    exists r. split; [lia | exact Hsq].
Qed.

End WitnessCheck.

(** C3: checkWitness(a, d, n, s) takes x = a^d mod n; it answers true when
    x is 1 or n - 1, and otherwise exactly when one of the at most s - 1
    successive squarings of x modulo n gives n - 1; in every other case it
    answers false. *)
Theorem checkWitness_spec (a d n s : Z) :
  n <> 0 ->
  let x := (a ^ d) mod n in
  (checkWitness a d n s = true <->
     x = 1 \/ x = n - 1 \/
     exists r : nat, 1 <= Z.of_nat r <= s - 1 /\ squaredTimes r x n = n - 1)
  /\ (checkWitness a d n s = false <->
        x <> 1 /\ x <> n - 1 /\
        forall r : nat, 1 <= Z.of_nat r <= s - 1 -> squaredTimes r x n <> n - 1).
Proof.
  intros _ x. pose proof (checkWitness_true_iff a d n s) as Htrue.
  unfold modPow in Htrue. fold x in Htrue.
  split; [exact Htrue|].
  rewrite <- Bool.not_true_iff_false, Htrue. split.
  - intros H. repeat split; try tauto. intros r Hr Hsq. apply H. eauto.
  - intros (H1 & H2 & H3) [?|[?|(r & Hr & Hsq)]]; try contradiction.
    now apply (H3 r).
Qed.

Lemma checkWitness_spec_witness :
  checkWitness 2 35 561 4 = false /\ checkWitness 2 3 13 2 = true.
Proof.
  split.
  - apply (checkWitness_spec 2 35 561 4); [lia|].
    split; [discriminate | split; [discriminate|]].
    intros [|[|[|[|r]]]] Hr; try lia; vm_compute; discriminate.
  - apply (checkWitness_spec 2 3 13 2); [lia|].
    right; right. exists 1%nat. split; [lia | reflexivity].
Defined.

(** ** What millerRabin can throw *)

Section Errors.

Lemma getRandomValues_throws (len : nat) (src : entropy) (e : error) :
  getRandomValues len src = Throw e -> e = EntropyUnavailable.
Proof.
  unfold getRandomValues. destruct (_ <? _)%nat; [|discriminate].
  now intros [= <-].
Qed.

Lemma drawSample_throws (bytesNeeded : nat) (mask : Z) (src : entropy)
      (e : error) :
  drawSample bytesNeeded mask src = Throw e -> e = EntropyUnavailable.
Proof.
  unfold drawSample. intros H. apply bind_Throw in H.
  destruct H as [H | (bytes & mid & _ & H)]; [|discriminate].
  now apply getRandomValues_throws in H.
Qed.

Lemma rejectionLoop_throws (fuel : nat) (range mask : Z) (bytesNeeded : nat) :
  forall src e,
    rejectionLoop fuel range mask bytesNeeded src = Throw e ->
    e = EntropyUnavailable.
Proof.
  induction fuel as [|fuel IH]; intros src e H; cbn [rejectionLoop] in H;
    [discriminate|].
  apply bind_Throw in H. destruct H as [H | (v & mid & _ & H)].
  - now apply drawSample_throws in H.
  - destruct (range <=? v); [now apply IH in H | discriminate].
Qed.

Lemma randomBigIntInRange_throws (fuel : nat) (min max : Z) (src : entropy)
      (e : error) :
  randomBigIntInRange fuel min max src = Throw e -> e = EntropyUnavailable.
Proof.
  unfold randomBigIntInRange. intros H. apply bind_Throw in H.
  destruct H as [H | (v & mid & _ & H)]; [|discriminate].
  now apply rejectionLoop_throws in H.
Qed.

Lemma pushWitnesses_throws (fuel : nat) (n : Z) :
  forall todo witnesses src e,
    pushWitnesses fuel todo n witnesses src = Throw e ->
    e = EntropyUnavailable.
Proof.
  induction todo as [|todo IH]; intros witnesses src e H;
    cbn [pushWitnesses] in H; [discriminate|].
  apply bind_Throw in H. destruct H as [H | (a & mid & _ & H)].
  - now apply randomBigIntInRange_throws in H.
  - now apply IH in H.
Qed.

Lemma millerRabin_throws (fuel : nat) (n k : Z) (src : entropy) (e : error) :
  millerRabin fuel n k src = Throw e -> e = EntropyUnavailable.
Proof.
  unfold millerRabin.
  destruct (n <? 2); [discriminate|].
  destruct ((n =? 2) || (n =? 3)); [discriminate|].
  destruct (Z.land n 1 =? 0); [discriminate|].
  destruct (decompose fuel n) as [[s d]|]; [|discriminate].
  intros H. apply bind_Throw in H.
  destruct H as [H | (ws & mid & _ & H)]; [|discriminate].
  unfold selectWitnesses in H.
  destruct (getDeterministicWitnesses n); [discriminate|].
  now apply pushWitnesses_throws in H.
Qed.

(** Above the table and with no witness requested, the verdict on an odd n
    is true and no entropy is consumed. *)
Lemma millerRabin_no_witness (fuel : nat) (n k : Z) (src : entropy) :
  lastThreshold <= n -> k <= 0 -> Z.odd n = true ->
  n <= 2 ^ Z.of_nat fuel ->
  millerRabin fuel n k src = Ok true src.
Proof.
  unfold lastThreshold. intros Hn Hk Hodd Hfuel. unfold millerRabin.
  replace (n <? 2) with false by (symmetry; apply Z.ltb_ge; lia).
  replace (n =? 2) with false by (symmetry; apply Z.eqb_neq; lia).
  replace (n =? 3) with false by (symmetry; apply Z.eqb_neq; lia).
  rewrite low_bit_odd, Hodd. cbn [orb negb].
  destruct (decompose_some fuel n) as (s & d & ->); try lia.
  unfold selectWitnesses, bind.
  rewrite (proj2 (getDeterministicWitnesses_none n) Hn).
  unfold generateRandomWitnesses.
  replace (Z.to_nat k) with 0%nat by lia. reflexivity.
Qed.

End Errors.

Lemma millerRabin_low (n : Z) (fuel : nat) (k : Z) (src : entropy) :
  n < 2 -> millerRabin fuel n k src = Ok false src.
Proof.
  intros Hn. unfold millerRabin.
  now replace (n <? 2) with true by (symmetry; apply Z.ltb_lt; lia).
Qed.

(** ** Primes pass the test *)

Section Primality.

Variable n : Z.
Hypothesis n_prime : Z.prime n.

Let n_ge_2 : 2 <= n := Z.prime_ge_2 n n_prime.

Lemma sqrt_one_prime (x : Z) :
  0 <= x < n -> (x * x) mod n = 1 -> x = 1 \/ x = n - 1.
Proof.
  intros Hx Hsq.
  assert (Hdiv : (n | (x - 1) * (x + 1))).
  { exists ((x * x) / n). pose proof (Z.div_mod (x * x) n). lia. }
  apply Z.divide_prime_mul in Hdiv; trivial.
  destruct Hdiv as [[q Hq]|[q Hq]].
  - left. assert (q = 0) by nia. lia.
  - right. assert (q = 1) by nia. lia.
Qed.

(** The chain a^d, a^(2d), a^(4d), ... modulo a prime: once it holds 1, it
    started with 1 or held n - 1 just before. *)
Lemma strong_sequence (a d : Z) :
  0 <= d ->
  forall r : nat,
    (a ^ (2 ^ Z.of_nat r * d)) mod n = 1 ->
    (a ^ d) mod n = 1
    \/ exists j : nat, (j < r)%nat /\ (a ^ (2 ^ Z.of_nat j * d)) mod n = n - 1.
Proof.
  intros Hd. induction r as [|r IH]; intros Hone.
  - left. now rewrite Z.pow_0_r, Z.mul_1_l in Hone.
  - assert (Hsq : ((a ^ (2 ^ Z.of_nat r * d)) mod n
                   * ((a ^ (2 ^ Z.of_nat r * d)) mod n)) mod n = 1).
    { rewrite <- Z.mul_mod, <- Z.pow_add_r by nia || lia.
      rewrite <- Hone. f_equal. f_equal.
      rewrite Nat2Z.inj_succ, Z.pow_succ_r; lia. }
    apply sqrt_one_prime in Hsq; [|apply Z.mod_pos_bound; lia].
    destruct Hsq as [H1|Hm1].
    + destruct (IH H1) as [?|(j & Hj & Hjm)]; [now left|].
      right. exists j. split; [lia | exact Hjm].
    + right. exists r. split; [lia | exact Hm1].
Qed.

(** No base that is not a multiple of the prime proves it composite. *)
Lemma checkWitness_prime (a d s : Z) :
  a mod n <> 0 -> 0 <= d -> 1 <= s -> 2 ^ s * d = n - 1 ->
  checkWitness a d n s = true.
Proof.
  intros Ha Hd Hs Hdec.
  pose proof (ZmodInv.Z.fermat_nz n a n_prime Ha) as Hfermat.
  rewrite <- Hdec, <- (Z2Nat.id s) in Hfermat by lia.
  apply strong_sequence in Hfermat; trivial.
  apply checkWitness_true_iff.
  destruct Hfermat as [H1|(j & Hj & Hjm)]; [now left|].
  destruct j as [|j].
  - right; left. now rewrite Z.pow_0_r, Z.mul_1_l in Hjm.
  - right; right. exists (S j). split; [lia|].
    rewrite squaredTimes_pow; trivial; lia.
Qed.

Lemma testWitnesses_prime (d s : Z) (witnesses : list Z) :
  0 <= d -> 1 <= s -> 2 ^ s * d = n - 1 ->
  Forall (fun a => 2 <= a <= n - 2) witnesses ->
  testWitnesses witnesses d n s = true.
Proof.
  intros Hd Hs Hdec. induction 1 as [|a ws Ha _ IH]; cbn [testWitnesses];
    [reflexivity|].
  rewrite (checkWitness_prime a d s); trivial.
  rewrite Z.mod_small; lia.
Qed.

Lemma prime_odd_from_5 : n <> 2 -> n <> 3 -> Z.odd n = true /\ 5 <= n.
Proof.
  intros H2 H3.
  assert (Hodd : Z.odd n = true).
  { destruct (Z.odd n) eqn:E; [reflexivity|].
    assert (Hdiv : (2 | n)).
    { exists (n / 2). pose proof (Z.div_mod n 2).
      rewrite Zmod_odd, E in *. lia. }
    apply (Z.divide_prime_r 2 n n_prime) in Hdiv. lia. }
  split; [exact Hodd|].
  destruct (Z.eq_dec n 4) as [E|]; [|lia].
  rewrite E in Hodd. discriminate Hodd.
Qed.

(** Whatever witnesses are drawn, a verdict on a prime is true. *)
Lemma millerRabin_prime (fuel : nat) (k : Z) (src : entropy) (b : bool)
      (rest : entropy) :
  millerRabin fuel n k src = Ok b rest -> b = true.
Proof.
  unfold millerRabin.
  replace (n <? 2) with false by (symmetry; apply Z.ltb_ge; lia).
  destruct (Z.eqb_spec n 2) as [E2|H2]; [now intros [= <- _]|].
  destruct (Z.eqb_spec n 3) as [E3|H3]; [now intros [= <- _]|].
  destruct (prime_odd_from_5 H2 H3) as [Hodd H5].
  rewrite low_bit_odd, Hodd. cbn [orb negb].
  destruct (decompose fuel n) as [[s d]|] eqn:Hdec; [|discriminate].
  apply decompose_odd in Hdec; trivial; try lia.
  destruct Hdec as (Hsd & Hd & Hs).
  intros H. apply bind_Ok in H. destruct H as (ws & mid & Hws & H).
  injection H as <- _.
  apply testWitnesses_prime; trivial.
  - pose proof (Z.mod_pos_bound d 2).
    assert (0 < 2 ^ s) by (apply Z.pow_pos_nonneg; lia). nia.
  - unfold selectWitnesses in Hws.
    destruct (getDeterministicWitnesses n) as [ws'|] eqn:E.
    + injection Hws as <- _. now apply getDeterministicWitnesses_range.
    + unfold generateRandomWitnesses in Hws.
      eapply pushWitnesses_range; [| | exact Hws]; [lia | constructor].
Qed.

End Primality.

(** ** Below the table's thresholds *)

Section TableRange.

(** Below the last threshold the verdict needs no entropy and ignores [k]. *)
Lemma millerRabin_table_returns (fuel : nat) (n k : Z) (src : entropy) :
  n < lastThreshold -> n <= 2 ^ Z.of_nat fuel ->
  exists b, millerRabin fuel n k src = Ok b src
            /\ forall k' src', millerRabin fuel n k' src' = Ok b src'.
Proof.
  intros Hn Hfuel. unfold millerRabin, ret.
  destruct (n <? 2) eqn:E2; [eauto|]. apply Z.ltb_ge in E2.
  destruct ((n =? 2) || (n =? 3)); [eauto|].
  destruct (Z.land n 1 =? 0); [eauto|].
  destruct (decompose_some fuel n) as (s & d & ->); try lia.
  unfold selectWitnesses, bind.
  destruct (getDeterministicWitnesses n) as [ws|] eqn:E.
  - unfold ret. eauto.
  - apply getDeterministicWitnesses_none in E. lia.
Qed.

(** A prime below the last threshold is reported prime. *)
Lemma millerRabin_table_prime (fuel : nat) (n k : Z) (src : entropy) :
  Z.prime n -> n < lastThreshold -> n <= 2 ^ Z.of_nat fuel ->
  millerRabin fuel n k src = Ok true src.
Proof.
  intros Hp Hn Hfuel.
  destruct (millerRabin_table_returns fuel n k src Hn Hfuel) as (b & Hb & _).
  rewrite Hb. f_equal. exact (millerRabin_prime n Hp fuel k src b src Hb).
Qed.

Lemma noDivisorFrom_true (count : nat) :
  forall c n, 0 < c ->
    (noDivisorFrom count c n = true <->
     forall m, c <= m < c + Z.of_nat count -> m * m <= n -> ~ (m | n)).
Proof.
  induction count as [|count IH]; intros c n Hc; cbn [noDivisorFrom].
  - split; [intros _ m Hm; lia | reflexivity].
  - destruct (Z.ltb_spec n (c * c)) as [Hsmall|Hbig].
    + split; [intros _ m Hm Hsq; nia | reflexivity].
    + rewrite andb_true_iff, negb_true_iff, Z.eqb_neq, IH by lia.
      rewrite Z.mod_divide by lia. split.
      * intros [Hfirst Hrest] m Hm Hsq.
        destruct (Z.eq_dec m c) as [->|]; [exact Hfirst | apply Hrest; lia].
      * intros H. split; [|intros m Hm Hsq]; apply H; lia.
Qed.

(** A proper divisor comes with one whose square does not exceed [n]. *)
Lemma small_divisor (n m : Z) :
  1 < m < n -> (m | n) ->
  exists m', 1 < m' < n /\ m' * m' <= n /\ (m' | n).
Proof.
  intros Hm [q Hq].
  assert (Hq1 : 1 < q < n) by nia.
  destruct (Z.le_ge_cases m q).
  - exists m. repeat split; try lia; [nia | now exists q].
  - exists q. repeat split; try lia; [nia | exists m; lia].
Qed.

(** Trial division decides primality. *)
Lemma trialDivision_prime (n : Z) : trialDivision n = true <-> Z.prime n.
Proof.
  unfold trialDivision, Z.prime.
  rewrite andb_true_iff, Z.ltb_lt, noDivisorFrom_true by lia.
  split; intros [Hn Hall]; (split; [exact Hn|]).
  - intros m Hm Hdiv.
    destruct (small_divisor n m Hm Hdiv) as (m' & Hm' & Hsq & Hdiv').
    apply (Hall m'); trivial; lia.
  - intros m Hm _. apply Hall. lia.
Qed.

(** Every n from 0 up to the first threshold, checked one by one against
    trial division. *)
Lemma millerRabin_first_row_checked :
  forallb (fun n => match verdict (millerRabin 11 n 20 []) with
                    | Some b => Bool.eqb b (trialDivision n)
                    | None => false
                    end)
          (map Z.of_nat (seq 0 2047)) = true.
Proof. vm_compute. reflexivity. Qed.

(** Below the first threshold the verdict is true exactly on the primes,
    for every [k] and every entropy tape. *)
Lemma millerRabin_first_row (n k : Z) (src : entropy) :
  n < 2047 ->
  millerRabin 11 n k src = Ok (trialDivision n) src
  /\ (millerRabin 11 n k src = Ok true src <-> Z.prime n).
Proof.
  intros Hn.
  assert (H : millerRabin 11 n k src = Ok (trialDivision n) src).
  { destruct (millerRabin_table_returns 11 n k src) as (b & Hb & Hany);
      [unfold lastThreshold; lia | simpl; lia |].
    rewrite Hb. f_equal.
    destruct (Z.ltb_spec n 2) as [Hlow|Hlow].
    - pose proof (millerRabin_low n 11 k src Hlow) as Hfalse.
      rewrite Hb in Hfalse. injection Hfalse as ->.
      symmetry. apply not_true_iff_false. rewrite trialDivision_prime.
      intros Hp. apply Z.prime_ge_2 in Hp. lia.
    - pose proof millerRabin_first_row_checked as Hchk.
      rewrite forallb_forall in Hchk.
      specialize (Hchk n). rewrite (Hany 20 []) in Hchk. cbn [verdict] in Hchk.
      apply eqb_prop, Hchk, in_map_iff. exists (Z.to_nat n).
      split; [lia | apply in_seq; lia]. }
  split; [exact H|]. rewrite H, <- trialDivision_prime.
  split; [now intros [= ->] | now intros ->].
Qed.

(** The spec's regression values. *)
Example millerRabin_561 : millerRabinDefault 10 561 [] = Ok false [].
Proof. vm_compute. reflexivity. Qed.

Example millerRabin_104729 : millerRabin 17 104729 20 [] = Ok true [].
Proof.
  apply millerRabin_table_prime;
    [|unfold lastThreshold; lia | simpl; lia].
  apply trialDivision_prime. vm_compute. reflexivity.
Qed.

Example millerRabin_100 : millerRabin 0 100 20 [] = Ok false [].
Proof. vm_compute. reflexivity. Qed.

End TableRange.


(** ** A witness count below one *)

(** C7, as the code has it: with n at or above the last threshold and an
    integer k < 1 the call is not rejected.  millerRabin raises no error; it
    returns false for an even n and true for an odd n and leaves the entropy
    tape untouched. *)
Theorem millerRabin_low_k_not_rejected (fuel : nat) (n k : Z)
        (src : entropy) :
  lastThreshold <= n -> k < 1 -> n <= 2 ^ Z.of_nat fuel ->
  millerRabin fuel n k src = Ok (Z.odd n) src
  /\ forall e, millerRabin fuel n k src <> Throw e.
Proof.
  intros Hn Hk Hfuel.
  assert (H : millerRabin fuel n k src = Ok (Z.odd n) src).
  { destruct (Z.odd n) eqn:Hodd.
    - apply millerRabin_no_witness; trivial; lia.
    - unfold lastThreshold in Hn. unfold millerRabin.
      replace (n <? 2) with false by (symmetry; apply Z.ltb_ge; lia).
      replace (n =? 2) with false by (symmetry; apply Z.eqb_neq; lia).
      replace (n =? 3) with false by (symmetry; apply Z.eqb_neq; lia).
      now rewrite low_bit_odd, Hodd. }
  split; [exact H|]. intros e. rewrite H. discriminate.
Qed.

Lemma millerRabin_low_k_not_rejected_witness :
  (millerRabin 49 341550071728321 0 [xff] = Ok true [xff]
   /\ forall e, millerRabin 49 341550071728321 0 [xff] <> Throw e)
  /\ (millerRabin 49 341550071728322 (-3) [xff] = Ok false [xff]
      /\ forall e, millerRabin 49 341550071728322 (-3) [xff] <> Throw e).
Proof.
  split.
  - apply (millerRabin_low_k_not_rejected 49 341550071728321 0 [xff]);
      [unfold lastThreshold; lia | lia | vm_compute; discriminate].
  - apply (millerRabin_low_k_not_rejected 49 341550071728322 (-3) [xff]);
      [unfold lastThreshold; lia | lia | vm_compute; discriminate].
Defined.

(** C7 as stated fails: at n = 341550071728321 (the last threshold) and
    k = 0 the call does not raise an invalid-argument error, it returns
    true. *)
Lemma millerRabin_low_k_counterexample :
  lastThreshold <= 341550071728321 /\ 0 < 1
  /\ millerRabin 49 341550071728321 0 [] = Ok true []
  /\ millerRabin 49 341550071728321 0 [] <> Throw InvalidArgument.
Proof.
  repeat split; try (vm_compute; congruence).
Qed.

(** C10: for every odd n at or above the last threshold and every k <= 0,
    the generated witness list is empty, the loop over it is passed
    vacuously, and millerRabin returns true without raising an error. *)
Theorem millerRabin_empty_witnesses (fuel : nat) (n k : Z) (src : entropy) :
  Z.odd n = true -> lastThreshold <= n -> k <= 0 ->
  n <= 2 ^ Z.of_nat fuel ->
  selectWitnesses fuel n k src = Ok [] src
  /\ millerRabin fuel n k src = Ok true src.
Proof.
  intros Hodd Hn Hk Hfuel. split.
  - unfold selectWitnesses, generateRandomWitnesses.
    rewrite (proj2 (getDeterministicWitnesses_none n) Hn).
    now replace (Z.to_nat k) with 0%nat by lia.
  - now apply millerRabin_no_witness.
Qed.

Lemma millerRabin_empty_witnesses_witness :
  selectWitnesses 50 1000000000000001 (-1) [x2a] = Ok [] [x2a]
  /\ millerRabin 50 1000000000000001 (-1) [x2a] = Ok true [x2a].
Proof.
  apply (millerRabin_empty_witnesses 50 1000000000000001 (-1) [x2a]);
    [reflexivity | unfold lastThreshold; lia | lia | vm_compute; discriminate].
Defined.

(** * Further properties of the code *)

(** ** The packing loop *)

Section Packing.

Lemma lor_shiftl_byte (a b : Z) :
  0 <= b < 256 -> Z.lor (Z.shiftl a 8) b = a * 256 + b.
Proof.
  intros Hb.
  assert (Hland : Z.land (Z.shiftl a 8) b = 0).
  { apply Z.bits_inj'. intros m Hm. rewrite Z.land_spec, Z.bits_0.
    destruct (Z.ltb_spec m 8) as [Hlow|Hhigh].
    - now rewrite Z.shiftl_spec_low.
    - rewrite (Z.bits_above_log2 b m), andb_false_r; try lia.
      destruct (Z.eq_dec b 0) as [->|]; [simpl; lia|].
      apply Z.lt_le_trans with 8; [apply Z.log2_lt_pow2; lia | exact Hhigh]. }
  rewrite <- Z.lxor_lor, <- Z.add_nocarry_lxor by exact Hland.
  now rewrite Z.shiftl_mul_pow2 by lia.
Qed.

Lemma byte_range (b : byte) : 0 <= Z.of_N (Byte.to_N b) < 256.
Proof. pose proof (Byte.to_N_bounded b). lia. Qed.

Lemma packBytes_snoc (randomBytes : list byte) (b : byte) :
  packBytes (randomBytes ++ [b])
  = packBytes randomBytes * 256 + Z.of_N (Byte.to_N b).
Proof.
  unfold packBytes. rewrite fold_left_app. cbn [fold_left].
  apply lor_shiftl_byte, byte_range.
Qed.

Lemma packBytes_upper (randomBytes : list byte) :
  packBytes randomBytes < 256 ^ Z.of_nat (List.length randomBytes).
Proof.
  induction randomBytes as [|b bs IH] using rev_ind; [reflexivity|].
  rewrite packBytes_snoc, length_app, Nat2Z.inj_add, Z.pow_add_r by lia.
  pose proof (byte_range b). cbn [List.length]. simpl (256 ^ Z.of_nat 1). lia.
Qed.

Lemma byteOfZ_value (x : Z) : Z.of_N (Byte.to_N (byteOfZ x)) = x mod 256.
Proof.
  unfold byteOfZ. pose proof (Z.mod_pos_bound x 256 eq_refl) as Hx.
  destruct (Byte.of_N (Z.to_N (x mod 256))) as [b|] eqn:E.
  - apply Byte.to_of_N in E. rewrite E. lia.
  - apply Byte.of_N_None_iff in E. lia.
Qed.

Lemma bigEndian_length (len : nat) :
  forall x, List.length (bigEndian len x) = len.
Proof.
  induction len as [|len IH]; intros x; cbn [bigEndian]; [reflexivity|].
  rewrite length_app, IH. simpl. lia.
Qed.

Lemma packBytes_bigEndian (len : nat) :
  forall x, 0 <= x < 256 ^ Z.of_nat len -> packBytes (bigEndian len x) = x.
Proof.
  induction len as [|len IH]; intros x Hx; cbn [bigEndian].
  - simpl in Hx. unfold packBytes. simpl. lia.
  - rewrite packBytes_snoc, byteOfZ_value, IH.
    + pose proof (Z.div_mod x 256). lia.
    + rewrite Nat2Z.inj_succ, Z.pow_succ_r in Hx by lia.
      split; [apply Z.div_pos; lia | apply Z.div_lt_upper_bound; lia].
Qed.

End Packing.

(** ** What the rejection loop draws and returns *)

Section Draws.

Lemma getRandomValues_app (randomBytes : list byte) (rest : entropy) :
  getRandomValues (List.length randomBytes) (randomBytes ++ rest)
  = Ok randomBytes rest.
Proof.
  unfold getRandomValues.
  replace (_ <? _)%nat with false
    by (symmetry; apply Nat.ltb_ge; rewrite length_app; lia).
  f_equal.
  - rewrite firstn_app, Nat.sub_diag, firstn_all. cbn [firstn]. apply app_nil_r.
  - rewrite skipn_app, Nat.sub_diag, skipn_all. reflexivity.
Qed.

Lemma getRandomValues_Ok (len : nat) (src : entropy) (randomBytes : list byte)
      (rest : entropy) :
  getRandomValues len src = Ok randomBytes rest ->
  src = randomBytes ++ rest /\ List.length randomBytes = len.
Proof.
  unfold getRandomValues. destruct (Nat.ltb_spec (List.length src) len);
    [discriminate|].
  intros [= <- <-]. split; [symmetry; apply firstn_skipn|].
  rewrite length_firstn. lia.
Qed.

Lemma getRandomValues_short (len : nat) (src : entropy) :
  (List.length src < len)%nat ->
  getRandomValues len src = Throw EntropyUnavailable.
Proof.
  intros H. unfold getRandomValues.
  now replace (_ <? _)%nat with true by (symmetry; apply Nat.ltb_lt; lia).
Qed.

Lemma bits_fit_in_bytes (bits : nat) :
  2 ^ Z.of_nat bits <= 256 ^ Z.of_nat (bytesNeededOf bits).
Proof.
  unfold bytesNeededOf. change 256 with (2 ^ 8).
  rewrite <- Z.pow_mul_r by lia. apply Z.pow_le_mono_r; [lia|].
  pose proof (Nat.div_mod (bits + 7) 8). pose proof (Nat.mod_upper_bound (bits + 7) 8).
  lia.
Qed.

(** The sample drawn from the big-endian bytes of an in-range offset is that
    offset. *)
Lemma drawSample_bigEndian (range x : Z) (rest : entropy) :
  0 <= x < range ->
  drawSample (bytesNeededOf (bitsNeededOf range)) (maskOf (bitsNeededOf range))
             (bigEndian (bytesNeededOf (bitsNeededOf range)) x ++ rest)
  = Ok x rest.
Proof.
  intros Hx.
  destruct (bitsNeededOf_pos range) as [_ Hbits]; [lia|].
  pose proof (bits_fit_in_bytes (bitsNeededOf range)) as Hbytes.
  unfold drawSample, bind.
  rewrite <- (bigEndian_length (bytesNeededOf (bitsNeededOf range)) x) at 1.
  rewrite getRandomValues_app. unfold ret. f_equal.
  rewrite packBytes_bigEndian by lia.
  rewrite maskOf_ones, Z.land_ones by lia. apply Z.mod_small. lia.
Qed.

(** A returned value was bought with whole blocks of [bytesNeeded] bytes, one
    per draw, taken from the front of the tape. *)
Lemma rejectionLoop_consumes (fuel : nat) (range mask : Z) (bytesNeeded : nat) :
  forall src v rest,
    rejectionLoop fuel range mask bytesNeeded src = Ok v rest ->
    exists used draws,
      src = used ++ rest /\ (1 <= draws <= fuel)%nat
      /\ List.length used = (draws * bytesNeeded)%nat.
Proof.
  induction fuel as [|fuel IH]; intros src v rest H; cbn [rejectionLoop] in H;
    [discriminate|].
  apply bind_Ok in H. destruct H as (result & mid & Hdraw & H).
  unfold drawSample in Hdraw. apply bind_Ok in Hdraw.
  destruct Hdraw as (bytes & mid' & Hget & Hret). injection Hret as _ <-.
  apply getRandomValues_Ok in Hget. destruct Hget as [-> Hlen].
  destruct (range <=? result).
  - apply IH in H. destruct H as (used & draws & -> & Hdraws & Hused).
    exists (bytes ++ used), (S draws).
    rewrite <- app_assoc, length_app. repeat split; lia.
  - injection H as _ <-. exists bytes, 1%nat. repeat split; lia.
Qed.

(** With [range <= 0] no draw is ever accepted. *)
Lemma rejectionLoop_never (fuel : nat) (range mask : Z) (bytesNeeded : nat) :
  range <= 0 -> 0 <= mask ->
  forall src,
    (fuel * bytesNeeded <= List.length src)%nat ->
    rejectionLoop fuel range mask bytesNeeded src = OutOfFuel.
Proof.
  intros Hrange Hmask. induction fuel as [|fuel IH]; intros src Hlen;
    cbn [rejectionLoop]; [reflexivity|].
  rewrite <- (firstn_skipn bytesNeeded src) at 1.
  assert (Hfirst : List.length (firstn bytesNeeded src) = bytesNeeded)
    by (rewrite length_firstn; lia).
  unfold bind, drawSample, bind. rewrite <- Hfirst at 1.
  rewrite getRandomValues_app. unfold ret.
  replace (range <=? _) with true.
  - apply IH. rewrite length_skipn. lia.
  - symmetry. apply Z.leb_le.
    assert (0 <= Z.land (packBytes (firstn bytesNeeded src)) mask)
      by (apply Z.land_nonneg; now right).
    lia.
Qed.

End Draws.

(** ** A larger iteration budget changes no settled outcome *)

Section Budget.

Lemma keeps_refl {A : Type} (o : outcome A) : keeps o o.
Proof. now intros _. Qed.

Lemma keeps_bind {A B : Type} (c c' : M A) (f f' : A -> M B) (src : entropy) :
  keeps (c src) (c' src) ->
  (forall a mid, keeps (f a mid) (f' a mid)) ->
  keeps (bind c f src) (bind c' f' src).
Proof.
  unfold keeps, bind. intros Hc Hf.
  destruct (c src) as [a mid|e|] eqn:E.
  - rewrite Hc by discriminate. apply Hf.
  - now rewrite Hc by discriminate.
  - intros H. now elim H.
Qed.

Lemma halvingLoop_more_fuel (fuel : nat) :
  forall s d r, halvingLoop fuel s d = Some r ->
    forall fuel', (fuel <= fuel')%nat -> halvingLoop fuel' s d = Some r.
Proof.
  induction fuel as [|fuel IH]; intros s d r H fuel' Hle;
    cbn [halvingLoop] in H.
  - destruct fuel'; cbn [halvingLoop];
      destruct (Z.land d 1 =? 0); trivial; discriminate.
  - destruct fuel' as [|fuel']; [lia|]. cbn [halvingLoop].
    destruct (Z.land d 1 =? 0); trivial. apply (IH _ _ _ H). lia.
Qed.

Lemma rejectionLoop_keeps (range mask : Z) (bytesNeeded : nat) (fuel : nat) :
  forall fuel' src, (fuel <= fuel')%nat ->
    keeps (rejectionLoop fuel range mask bytesNeeded src)
          (rejectionLoop fuel' range mask bytesNeeded src).
Proof.
  induction fuel as [|fuel IH]; intros fuel' src Hle.
  - intros H. now elim H.
  - destruct fuel' as [|fuel']; [lia|]. cbn [rejectionLoop].
    apply keeps_bind; [apply keeps_refl|]. intros result mid.
    destruct (range <=? result); [apply IH; lia | apply keeps_refl].
Qed.

Lemma randomBigIntInRange_keeps (fuel fuel' : nat) (min max : Z)
      (src : entropy) :
  (fuel <= fuel')%nat ->
  keeps (randomBigIntInRange fuel min max src)
        (randomBigIntInRange fuel' min max src).
Proof.
  intros Hle. unfold randomBigIntInRange.
  apply keeps_bind; [now apply rejectionLoop_keeps|].
  intros result mid. apply keeps_refl.
Qed.

Lemma pushWitnesses_keeps (fuel fuel' : nat) (n : Z) :
  (fuel <= fuel')%nat ->
  forall todo witnesses src,
    keeps (pushWitnesses fuel todo n witnesses src)
          (pushWitnesses fuel' todo n witnesses src).
Proof.
  intros Hle. induction todo as [|todo IH]; intros witnesses src;
    cbn [pushWitnesses]; [apply keeps_refl|].
  apply keeps_bind; [now apply randomBigIntInRange_keeps|].
  intros a mid. apply IH.
Qed.

Lemma millerRabin_keeps (fuel fuel' : nat) (n k : Z) (src : entropy) :
  (fuel <= fuel')%nat ->
  keeps (millerRabin fuel n k src) (millerRabin fuel' n k src).
Proof.
  intros Hle. unfold millerRabin.
  destruct (n <? 2); [apply keeps_refl|].
  destruct ((n =? 2) || (n =? 3)); [apply keeps_refl|].
  destruct (Z.land n 1 =? 0); [apply keeps_refl|].
  unfold decompose.
  destruct (halvingLoop fuel 0 (n - 1)) as [[s d]|] eqn:E;
    [|intros H; now elim H].
  rewrite (halvingLoop_more_fuel fuel _ _ _ E fuel' Hle).
  apply keeps_bind; [|intros ws mid; apply keeps_refl].
  unfold selectWitnesses.
  destruct (getDeterministicWitnesses n); [apply keeps_refl|].
  now apply pushWitnesses_keeps.
Qed.

End Budget.

(** ** Verdicts and primes *)

(** X1: a verdict of false is definitive, with table witnesses or sampled
    ones: whenever millerRabin returns false, n is not prime. *)
Theorem millerRabin_false_is_composite (fuel : nat) (n k : Z) (src : entropy)
        (rest : entropy) :
  millerRabin fuel n k src = Ok false rest -> ~ Z.prime n.
Proof.
  intros H Hp. pose proof (millerRabin_prime n Hp fuel k src false rest H).
  discriminate.
Qed.

Lemma millerRabin_false_is_composite_witness : ~ Z.prime 561.
Proof.
  apply (millerRabin_false_is_composite 10 561 20 [] []).
  vm_compute. reflexivity.
Defined.

(** X2: checkWitness keeps its promise that a false answer proves n
    composite: with n - 1 = 2^s * d, s >= 1, d >= 0 and a base that is not
    a multiple of n, checkWitness(a, d, n, s) = false implies that n is not
    prime. *)
Theorem checkWitness_false_is_composite (a d n s : Z) :
  0 <= d -> 1 <= s -> 2 ^ s * d = n - 1 -> a mod n <> 0 ->
  checkWitness a d n s = false -> ~ Z.prime n.
Proof.
  intros Hd Hs Hdec Ha Hfalse Hp.
  rewrite (checkWitness_prime n Hp a d s Ha Hd Hs Hdec) in Hfalse.
  discriminate.
Qed.

Lemma checkWitness_false_is_composite_witness : ~ Z.prime 561.
Proof.
  apply (checkWitness_false_is_composite 2 35 561 4);
    [lia | lia | reflexivity | vm_compute; discriminate
     | vm_compute; reflexivity].
Defined.

(** X3: on a modulus n > 1, with d >= 0 and s >= 1, checkWitness(a, d, n, s)
    is the strong-probable-prime test: it answers true exactly when
    a^d = 1 (mod n) or a^(2^r * d) = n - 1 (mod n) for some 0 <= r < s. *)
Theorem checkWitness_strong_probable_prime (a d n s : Z) :
  1 < n -> 0 <= d -> 1 <= s ->
  (checkWitness a d n s = true <->
   (a ^ d) mod n = 1
   \/ exists r : nat, Z.of_nat r < s /\ (a ^ (2 ^ Z.of_nat r * d)) mod n = n - 1).
Proof.
  intros Hn Hd Hs. rewrite checkWitness_true_iff. unfold modPow at 1 2.
  split.
  - intros [H1|[Hm1|(r & Hr & Hsq)]]; [now left | |].
    + right. exists 0%nat. split; [lia|].
      now rewrite Z.pow_0_r, Z.mul_1_l.
    + right. exists r. split; [lia|]. now rewrite <- squaredTimes_pow.
  - intros [H1|(r & Hr & Hpow)]; [now left|]. right.
    destruct r as [|r].
    + left. now rewrite Z.pow_0_r, Z.mul_1_l in Hpow.
    + right. exists (S r). split; [lia|]. now rewrite squaredTimes_pow.
Qed.

Lemma checkWitness_strong_probable_prime_witness :
  checkWitness 2 3 13 2 = true.
Proof.
  apply (checkWitness_strong_probable_prime 2 3 13 2); [lia | lia | lia |].
  right. exists 1%nat. split; [lia | reflexivity].
Defined.

(** X4: below the first threshold 2047 the test is exact: with a budget of
    11 iterations or more, for every k and every entropy tape, millerRabin
    returns a verdict, consumes no entropy, and the verdict is true exactly
    when n is prime. *)
Theorem millerRabin_exact_below_2047 (fuel : nat) (n k : Z) (src : entropy) :
  n < 2047 -> (11 <= fuel)%nat ->
  exists b, millerRabin fuel n k src = Ok b src /\ (b = true <-> Z.prime n).
Proof.
  intros Hn Hfuel. exists (trialDivision n).
  split; [|apply trialDivision_prime].
  destruct (millerRabin_first_row n k src Hn) as [H _].
  rewrite <- H. apply (millerRabin_keeps 11 fuel n k src Hfuel).
  rewrite H. discriminate.
Qed.

Lemma millerRabin_exact_below_2047_witness :
  exists b, millerRabin 12 2039 0 [x01] = Ok b [x01]
            /\ (b = true <-> Z.prime 2039).
Proof.
  apply (millerRabin_exact_below_2047 12 2039 0 [x01]); lia.
Defined.

(** X5: below the last threshold the accuracy parameter and the entropy
    source play no part: with a budget of at least log2 n iterations there
    is one verdict that millerRabin returns for every k and every tape,
    leaving the tape untouched. *)
Theorem millerRabin_table_ignores_k (fuel : nat) (n : Z) :
  n < lastThreshold -> n <= 2 ^ Z.of_nat fuel ->
  exists b, forall k src, millerRabin fuel n k src = Ok b src.
Proof.
  intros Hn Hfuel.
  destruct (millerRabin_table_returns fuel n 0 [] Hn Hfuel) as (b & _ & Hany).
  now exists b.
Qed.

Lemma millerRabin_table_ignores_k_witness :
  exists b, forall k src, millerRabin 20 1000001 k src = Ok b src.
Proof.
  apply (millerRabin_table_ignores_k 20 1000001);
    [unfold lastThreshold; lia | vm_compute; discriminate].
Defined.

(** X6: every prime below the last threshold is reported prime, whatever k
    and the entropy tape, given a budget of at least log2 n iterations. *)
Theorem millerRabin_reports_table_primes (fuel : nat) (n k : Z)
        (src : entropy) :
  Z.prime n -> n < lastThreshold -> n <= 2 ^ Z.of_nat fuel ->
  millerRabin fuel n k src = Ok true src.
Proof. apply millerRabin_table_prime. Qed.

Lemma millerRabin_reports_table_primes_witness :
  millerRabin 17 65537 (-1) [xff] = Ok true [xff].
Proof.
  apply (millerRabin_reports_table_primes 17 65537 (-1) [xff]);
    [|unfold lastThreshold; lia | vm_compute; discriminate].
  apply trialDivision_prime. vm_compute. reflexivity.
Defined.

(** ** The random integers *)

Section RandomWitnesses.

Lemma randomBigIntInRange_consumes (fuel : nat) (min max : Z) (src : entropy)
      (v : Z) (rest : entropy) :
  randomBigIntInRange fuel min max src = Ok v rest ->
  exists used draws,
    src = used ++ rest /\ (1 <= draws <= fuel)%nat
    /\ List.length used
       = (draws * bytesNeededOf (bitsNeededOf (rangeOf min max)))%nat.
Proof.
  unfold randomBigIntInRange. intros H.
  apply bind_Ok in H. destruct H as (result & mid & Hloop & H).
  injection H as _ <-. now apply rejectionLoop_consumes in Hloop.
Qed.

Lemma pushWitnesses_consumes (fuel : nat) (n : Z) :
  forall todo witnesses src result rest,
    pushWitnesses fuel todo n witnesses src = Ok result rest ->
    exists used,
      src = used ++ rest
      /\ (todo * bytesNeededOf (bitsNeededOf (rangeOf 2 (n - 2)))
          <= List.length used)%nat.
Proof.
  induction todo as [|todo IH]; intros witnesses src result rest H;
    cbn [pushWitnesses] in H.
  - injection H as _ <-. exists []. split; [reflexivity | simpl; lia].
  - apply bind_Ok in H. destruct H as (a & mid & Ha & H).
    apply randomBigIntInRange_consumes in Ha.
    destruct Ha as (used1 & draws & -> & Hdraws & Hlen1).
    apply IH in H. destruct H as (used2 & -> & Hlen2).
    exists (used1 ++ used2). rewrite <- app_assoc, length_app.
    split; [reflexivity | nia].
Qed.

Lemma randomBigIntInRange_bigEndian (fuel : nat) (min max v : Z)
      (rest : entropy) :
  min <= v <= max ->
  randomBigIntInRange (S fuel) min max
    (bigEndian (bytesNeededOf (bitsNeededOf (rangeOf min max))) (v - min)
     ++ rest)
  = Ok v rest.
Proof.
  intros Hv. unfold randomBigIntInRange, bind.
  rewrite (rejectionLoop_accepts fuel _ _ _ _ (v - min) rest).
  - unfold ret. f_equal. lia.
  - apply drawSample_bigEndian. unfold rangeOf. lia.
  - unfold rangeOf. lia.
Qed.

(** The draws of [generateRandomWitnesses] on a tape that spells out the
    witnesses one after the other. *)
Lemma pushWitnesses_bigEndian (fuel : nat) (n : Z) (rest : entropy) :
  forall sampled witnesses,
    Forall (fun a => 2 <= a <= n - 2) sampled ->
    pushWitnesses (S fuel) (List.length sampled) n witnesses
      (flat_map
         (fun a => bigEndian (bytesNeededOf (bitsNeededOf (rangeOf 2 (n - 2))))
                             (a - 2))
         sampled ++ rest)
    = Ok (witnesses ++ sampled) rest.
Proof.
  induction sampled as [|a sampled IH]; intros witnesses Hall;
    cbn [List.length pushWitnesses flat_map].
  - unfold ret. now rewrite app_nil_r.
  - inversion Hall as [|? ? Ha Hrest]; subst.
    rewrite <- app_assoc. unfold bind.
    rewrite randomBigIntInRange_bigEndian by exact Ha.
    rewrite IH by exact Hrest. now rewrite <- app_assoc.
Qed.

Lemma testWitnesses_forallb (witnesses : list Z) (d n s : Z) :
  testWitnesses witnesses d n s
  = forallb (fun a => checkWitness a d n s) witnesses.
Proof.
  induction witnesses as [|a ws IH]; cbn [testWitnesses forallb];
    [reflexivity|].
  now destruct (checkWitness a d n s).
Qed.

End RandomWitnesses.

(** X8: no value of [min, max] is out of reach of randomBigIntInRange: for
    every v in the interval, when the source delivers the big-endian bytes
    of v - min the first draw is accepted and v is returned, the rest of the
    tape left in place. *)
Theorem randomBigIntInRange_reaches (fuel : nat) (min max v : Z)
        (rest : entropy) :
  min <= v <= max ->
  randomBigIntInRange (S fuel) min max
    (bigEndian (bytesNeededOf (bitsNeededOf (rangeOf min max))) (v - min)
     ++ rest)
  = Ok v rest.
Proof. apply randomBigIntInRange_bigEndian. Qed.

Lemma randomBigIntInRange_reaches_witness :
  randomBigIntInRange 1 1000 70000 [x01; x00; x82; xff] = Ok 66666 [xff].
Proof.
  apply (randomBigIntInRange_reaches 0 1000 70000 66666 [xff]). lia.
Defined.

(** X9: a value returned by randomBigIntInRange was paid for in whole draws:
    the tape read is a prefix of the source made of between 1 and fuel
    blocks of bytesNeeded bytes each, and the rest is handed on untouched. *)
Theorem randomBigIntInRange_draws_blocks (fuel : nat) (min max : Z)
        (src : entropy) (v : Z) (rest : entropy) :
  randomBigIntInRange fuel min max src = Ok v rest ->
  exists used draws,
    src = used ++ rest /\ (1 <= draws <= fuel)%nat
    /\ List.length used
       = (draws * bytesNeededOf (bitsNeededOf (rangeOf min max)))%nat.
Proof. apply randomBigIntInRange_consumes. Qed.

Lemma randomBigIntInRange_draws_blocks_witness :
  exists used draws,
    [xff; x0b; x2a] = used ++ [x2a] /\ (1 <= draws <= 3)%nat
    /\ List.length used
       = (draws * bytesNeededOf (bitsNeededOf (rangeOf 2 6)))%nat.
Proof.
  apply (randomBigIntInRange_draws_blocks 3 2 6 [xff; x0b; x2a] 5 [x2a]).
  vm_compute. reflexivity.
Defined.

(** X10: the precondition max >= min is not checked: with max < min no
    sample is ever accepted, so randomBigIntInRange returns no value, and
    on a tape long enough for fuel draws all fuel draws are rejected. *)
Theorem randomBigIntInRange_inverted_bounds (fuel : nat) (min max : Z)
        (src : entropy) :
  max < min ->
  (forall v rest, randomBigIntInRange fuel min max src <> Ok v rest)
  /\ ((fuel * bytesNeededOf (bitsNeededOf (rangeOf min max))
       <= List.length src)%nat ->
      randomBigIntInRange fuel min max src = OutOfFuel).
Proof.
  intros Hlt. split.
  - intros v rest H. apply randomBigIntInRange_bounds in H. lia.
  - intros Hlen. unfold randomBigIntInRange, bind.
    rewrite rejectionLoop_never; trivial;
      [unfold rangeOf; lia | apply maskOf_nonneg].
Qed.

Lemma randomBigIntInRange_inverted_bounds_witness :
  randomBigIntInRange 2 10 3 [x00; x01] = OutOfFuel.
Proof.
  apply (randomBigIntInRange_inverted_bounds 2 10 3 [x00; x01]);
    [lia | vm_compute; lia].
Defined.

(** X11: the packing loop reads the bytes as a base-256 number, most
    significant byte first: appending a byte multiplies by 256 and adds it,
    and the packed value of len bytes lies in [0, 256^len). *)
Theorem packBytes_big_endian (randomBytes : list byte) (b : byte) :
  packBytes (randomBytes ++ [b])
  = packBytes randomBytes * 256 + Z.of_N (Byte.to_N b)
  /\ 0 <= packBytes randomBytes < 256 ^ Z.of_nat (List.length randomBytes).
Proof.
  split; [apply packBytes_snoc|].
  split; [apply packBytes_nonneg | apply packBytes_upper].
Qed.

(** X12: generateRandomWitnesses(n, k) returns exactly k witnesses (none
    for k <= 0), and reads at least bytesNeeded bytes of the source for each
    of them, from the front of the tape. *)
Theorem generateRandomWitnesses_count (fuel : nat) (n k : Z) (src : entropy)
        (witnesses : list Z) (rest : entropy) :
  generateRandomWitnesses fuel n k src = Ok witnesses rest ->
  List.length witnesses = Z.to_nat k
  /\ exists used,
       src = used ++ rest
       /\ (Z.to_nat k * bytesNeededOf (bitsNeededOf (rangeOf 2 (n - 2)))
           <= List.length used)%nat.
Proof.
  intros H. split; [now apply generateRandomWitnesses_length in H|].
  unfold generateRandomWitnesses in H. now apply pushWitnesses_consumes in H.
Qed.

Lemma generateRandomWitnesses_count_witness :
  List.length [2 + 0x010203040506; 2 + 0x0000000000ff] = Z.to_nat 2
  /\ exists used,
       [xff; xff; xff; xff; xff; xff; xff;
        x00; x01; x02; x03; x04; x05; x06;
        x00; x00; x00; x00; x00; x00; xff] = used ++ []
       /\ (Z.to_nat 2
           * bytesNeededOf (bitsNeededOf (rangeOf 2 (341550071728323 - 2)))
           <= List.length used)%nat.
Proof.
  apply (generateRandomWitnesses_count 4 341550071728323 2).
  vm_compute. reflexivity.
Defined.

(** X13: entropy failure reaches the caller: for an odd n at or above the
    last threshold and k >= 1, when the source cannot supply the bytes of
    the first draw, millerRabin throws the entropy error and returns no
    verdict. *)
Theorem millerRabin_entropy_failure (fuel : nat) (n k : Z) (src : entropy) :
  Z.odd n = true -> lastThreshold <= n -> 1 <= k ->
  n <= 2 ^ Z.of_nat fuel ->
  (List.length src < bytesNeededOf (bitsNeededOf (rangeOf 2 (n - 2))))%nat ->
  millerRabin fuel n k src = Throw EntropyUnavailable.
Proof.
  unfold lastThreshold. intros Hodd Hn Hk Hfuel Hshort. unfold millerRabin.
  replace (n <? 2) with false by (symmetry; apply Z.ltb_ge; lia).
  replace (n =? 2) with false by (symmetry; apply Z.eqb_neq; lia).
  replace (n =? 3) with false by (symmetry; apply Z.eqb_neq; lia).
  rewrite low_bit_odd, Hodd. cbn [orb negb].
  destruct (decompose_some fuel n) as (s & d & ->); try lia.
  unfold selectWitnesses.
  rewrite (proj2 (getDeterministicWitnesses_none n) Hn).
  unfold generateRandomWitnesses.
  destruct (Z.to_nat k) as [|todo] eqn:Ek; [lia|].
  destruct fuel as [|fuel]; [simpl in Hfuel; lia|].
  cbn [pushWitnesses]. unfold randomBigIntInRange. cbn [rejectionLoop].
  unfold bind, drawSample, bind.
  now rewrite getRandomValues_short.
Qed.

Lemma millerRabin_entropy_failure_witness :
  millerRabin 49 341550071728321 1 [x00; x01; x02] = Throw EntropyUnavailable.
Proof.
  apply (millerRabin_entropy_failure 49 341550071728321 1 [x00; x01; x02]);
    [reflexivity | unfold lastThreshold; lia | lia | vm_compute; discriminate
     | vm_compute; lia].
Defined.

(** X14: in random mode the verdict is the conjunction of the checks of the
    sampled witnesses, in the order drawn: for an odd n at or above the last
    threshold, on a tape that spells out witnesses a_1 .. a_k of [2, n - 2]
    (each as the big-endian bytes of a_i - 2), millerRabin(n, k) accepts
    every draw, tests exactly a_1 .. a_k against the decomposition (s, d) of
    n - 1, and hands the rest of the tape on. *)
Theorem millerRabin_random_mode (fuel : nat) (n : Z) (sampled : list Z)
        (rest : entropy) :
  Z.odd n = true -> lastThreshold <= n -> n <= 2 ^ Z.of_nat fuel ->
  Forall (fun a => 2 <= a <= n - 2) sampled ->
  exists s d,
    decompose fuel n = Some (s, d)
    /\ millerRabin fuel n (Z.of_nat (List.length sampled))
         (flat_map
            (fun a =>
               bigEndian (bytesNeededOf (bitsNeededOf (rangeOf 2 (n - 2))))
                         (a - 2))
            sampled ++ rest)
       = Ok (forallb (fun a => checkWitness a d n s) sampled) rest.
Proof.
  intros Hodd Hn Hfuel Hall. pose proof Hn as Hn'. unfold lastThreshold in Hn'.
  destruct (decompose_some fuel n) as (s & d & Hdec); try lia.
  exists s, d. split; [exact Hdec|]. unfold millerRabin.
  replace (n <? 2) with false by (symmetry; apply Z.ltb_ge; lia).
  replace (n =? 2) with false by (symmetry; apply Z.eqb_neq; lia).
  replace (n =? 3) with false by (symmetry; apply Z.eqb_neq; lia).
  rewrite low_bit_odd, Hodd, Hdec. cbn [orb negb].
  unfold selectWitnesses.
  rewrite (proj2 (getDeterministicWitnesses_none n) Hn).
  unfold generateRandomWitnesses. rewrite Nat2Z.id.
  destruct fuel as [|fuel]; [simpl in Hfuel; lia|].
  unfold bind. rewrite pushWitnesses_bigEndian by exact Hall.
  unfold ret. cbn [app]. now rewrite testWitnesses_forallb.
Qed.

Lemma millerRabin_random_mode_witness :
  exists s d,
    decompose 49 341550071728321 = Some (s, d)
    /\ millerRabin 49 341550071728321 (Z.of_nat (List.length [19; 23]))
         (flat_map
            (fun a =>
               bigEndian
                 (bytesNeededOf
                    (bitsNeededOf (rangeOf 2 (341550071728321 - 2))))
                 (a - 2))
            [19; 23] ++ [x07])
       = Ok (forallb (fun a => checkWitness a d 341550071728321 s) [19; 23])
            [x07].
Proof.
  apply (millerRabin_random_mode 49 341550071728321 [19; 23] [x07]);
    [reflexivity | unfold lastThreshold; lia | vm_compute; discriminate |].
  repeat constructor; lia.
Defined.
